(** * dda.h: the single-step integrator of the DDA driver

    The header defines one function, [__integrate], in one of three
    configurations chosen by the preprocessor:

    - [TRAPEZ] defined: the trapezoidal rule, which keeps the previous sample
      in the cell [*y_old];
    - otherwise [RK] defined: nothing at all (the branch is empty);
    - otherwise: the Euler rule.

    The function works on [double] cells passed by address.  The embedding
    below keeps this shape: a store of cells indexed by addresses, a small
    state-and-error monad for loads and stores, and the two function bodies
    written in it.  The arithmetic of [double] is a parameter (class
    [Scalar]) with two instances: IEEE-754 binary64 (the kernel's primitive
    floats, which is what the compiled code computes with) and the real
    numbers (the idealised arithmetic in which the integration formulas are
    usually read). *)

From Stdlib Require Import Reals Lra Lia ZArith List Floats.
From stdpp Require Import gmap.

#[local] Open Scope Z_scope.

(** ** Arithmetic of [double] *)

(** The operations the header uses on [double]: [+], [-], [*], [/] and the
    literal [2.]. *)
Class Scalar (F : Type) : Type := {
  sadd : F → F → F;
  ssub : F → F → F;
  smul : F → F → F;
  sdiv : F → F → F;
  two : F
}.

Declare Scope scalar_scope.
Delimit Scope scalar_scope with S.
Infix "+" := sadd : scalar_scope.
Infix "-" := ssub : scalar_scope.
Infix "*" := smul : scalar_scope.
Infix "/" := sdiv : scalar_scope.

(** IEEE-754 binary64 with round-to-nearest-even: C's [double]. *)
#[export] Instance binary64 : Scalar float := {
  sadd := PrimFloat.add;
  ssub := PrimFloat.sub;
  smul := PrimFloat.mul;
  sdiv := PrimFloat.div;
  two := 2%float
}.

(** Exact real arithmetic. *)
#[export] Instance exact : Scalar R := {
  sadd := Rplus;
  ssub := Rminus;
  smul := Rmult;
  sdiv := Rdiv;
  two := 2%R
}.

(** Two classes of binary64 values, read off the decoded form: the finite
    ones (zeros included) and the two zeros. *)
Definition finite64 (x : float) : bool :=
  match Prim2SF x with
  | S754_zero _ | S754_finite _ _ _ => true
  | _ => false
  end.

Definition zero64 (x : float) : bool :=
  match Prim2SF x with
  | S754_zero _ => true
  | _ => false
  end.

(** ** Memory and commands *)

(** A store maps the addresses of allocated [double] cells to their
    contents.  Addresses are integers. *)
Abbreviation loc := Z.

Inductive error : Type :=
  | InvalidPointer (p : loc)   (* a load or store through a pointer to no cell *)
  | UndefinedFunction.         (* a call to a function no branch defines *)

(** A command runs on a store and either fails or returns a value and the
    new store. *)
Definition cmd (F A : Type) : Type := gmap loc F → error + A * gmap loc F.

#[export] Instance cmd_ret {F} : MRet (cmd F) :=
  λ A a m, inr (a, m).

#[export] Instance cmd_bind {F} : MBind (cmd F) :=
  λ A B k c m, match c m with
               | inl e => inl e
               | inr (a, m') => k a m'
               end.

(** [*p] as an rvalue. *)
Definition load {F} (p : loc) : cmd F F :=
  λ m, match m !! p with
       | Some v => inr (v, m)
       | None => inl (InvalidPointer p)
       end.

(** [*p = v]. *)
Definition store {F} (p : loc) (v : F) : cmd F unit :=
  λ m, match m !! p with
       | Some _ => inr (tt, <[p := v]> m)
       | None => inl (InvalidPointer p)
       end.

(** ** The two bodies of [__integrate] *)

Module Trapez.

(** [[
    void __integrate(double *i, double y, double dx, double *y_old)
    {
      *i -= (y + *y_old) / 2. * dx;
      *y_old = y;
    }
    ]] *)
Definition __integrate `{Scalar F} (i : loc) (y dx : F) (y_old : loc) : cmd F unit :=
  a ← load i;
  b ← load y_old;
  store i (a - (y + b) / two * dx)%S;;
  store y_old y.

End Trapez.

Module Euler.

(** [[
    void __integrate(double *i, double y, double dx, double *y_old)
    {
      *i -= y * dx;
    }
    ]] *)
Definition __integrate `{Scalar F} (i : loc) (y dx : F) (y_old : loc) : cmd F unit :=
  a ← load i;
  store i (a - y * dx)%S.

End Euler.

(** ** Conditional compilation *)

(** Which of the two macros the including program defines. *)
Record macros : Type := { TRAPEZ : bool; RK : bool }.

(** [#ifdef TRAPEZ ... #elif defined RK ... #else ... #endif]: the definition
    of [__integrate] the header contributes, if any. *)
Definition dda_h `{Scalar F} (D : macros)
  : option (loc → F → F → loc → cmd F unit) :=
  if TRAPEZ D then Some Trapez.__integrate
  else if RK D then None
  else Some Euler.__integrate.

(** The header as it is: both [#define] lines are commented out. *)
Definition as_shipped : macros := {| TRAPEZ := false; RK := false |}.
Definition trapez_selected : macros := {| TRAPEZ := true; RK := false |}.
Definition rk_selected : macros := {| TRAPEZ := false; RK := true |}.


(** ** The header as the preprocessor reads it *)

(** The header is one conditional: groups of lines guarded by [#ifdef M] or
    [#elif defined M], tried in order, and an [#else] group.  A line of a
    group is a function definition or an [#error] directive, which makes the
    translation fail with a diagnostic. *)
Inductive macro : Type := M_TRAPEZ | M_RK.

Definition defined (D : macros) (M : macro) : bool :=
  match M with
  | M_TRAPEZ => TRAPEZ D
  | M_RK => RK D
  end.

Inductive line (F : Type) : Type :=
  | FunctionDefinition (body : loc → F → F → loc → cmd F unit)
  | ErrorDirective.
Arguments FunctionDefinition {F} body.
Arguments ErrorDirective {F}.

Record conditional (F : Type) : Type := {
  guarded : list (macro * list (line F));
  otherwise : list (line F)
}.
Arguments guarded {F} c.
Arguments otherwise {F} c.

(** What a translation of the header comes to: a diagnostic, or the
    definitions it contributes to the program. *)
Inductive translation (F : Type) : Type :=
  | Rejected
  | Accepted (definitions : list (loc → F → F → loc → cmd F unit)).
Arguments Rejected {F}.
Arguments Accepted {F} definitions.

(** The group the preprocessor keeps: the first whose macro is defined, the
    [#else] group when none is. *)
Fixpoint kept {F} (D : macros) (groups : list (macro * list (line F)))
    (els : list (line F)) : list (line F) :=
  match groups with
  | [] => els
  | (M, ls) :: groups' => if defined D M then ls else kept D groups' els
  end.

Fixpoint translate {F} (ls : list (line F)) : translation F :=
  match ls with
  | [] => Accepted []
  | ErrorDirective :: _ => Rejected
  | FunctionDefinition body :: ls' =>
      match translate ls' with
      | Rejected => Rejected
      | Accepted defs => Accepted (body :: defs)
      end
  end.

(** [dda.h], line by line: [#ifdef TRAPEZ] with the trapezoidal definition,
    [#elif defined RK] with nothing, [#else] with the Euler definition.
    There is no [#error] in it. *)
Definition dda_h_lines `{Scalar F} : conditional F := {|
  guarded := [(M_TRAPEZ, [FunctionDefinition Trapez.__integrate]);
              (M_RK, [])];
  otherwise := [FunctionDefinition Euler.__integrate]
|}.

Definition translation_unit `{Scalar F} (D : macros) : translation F :=
  translate (kept D (guarded dda_h_lines) (otherwise dda_h_lines)).

(** ** The stepping loop *)

(** One call per (sample, step size) pair, in order, on the same two cells. *)
Fixpoint run {F} (f : loc → F → F → loc → cmd F unit) (i y_old : loc)
    (steps : list (F * F)) : cmd F unit :=
  match steps with
  | [] => mret tt
  | (y, dx) :: steps' => f i y dx y_old;; run f i y_old steps'
  end.

(** The contents of the two cells after a run, as plain folds over the
    steps.  [run_euler] and [run_trapez] below show that they are what the
    loop leaves in the store. *)
Definition euler_acc `{Scalar F} (a : F) (steps : list (F * F)) : F :=
  fold_left (λ a s, a - s.1 * s.2)%S steps a.

Definition trapez_acc `{Scalar F} (ab : F * F) (steps : list (F * F)) : F * F :=
  fold_left (λ ab s, (ab.1 - (s.1 + ab.2) / two * s.2, s.1))%S steps ab.

(** A store with exactly the two cells of one integrator: the accumulator at
    address [i] and the previous sample at address [y_old]. *)
Definition two_cells {F} (i y_old : loc) (a b : F) : gmap loc F :=
  <[i := a]> {[ y_old := b ]}.

(** The area of the rectangles [y * dx] of a list of steps, and the sum of
    the squares of a list of step sizes, over the reals. *)
Definition rect_area (steps : list (R * R)) : R :=
  fold_right (λ s r, s.1 * s.2 + r)%R 0%R steps.

Definition sum_squares (ds : list R) : R :=
  fold_right (λ d r, d * d + r)%R 0%R ds.

(** The previous sample holds the first sample of the run, when the run has
    one. *)
Definition seeded {F} (s : F) (steps : list (F * F)) : Prop :=
  match steps with
  | [] => True
  | (y, _) :: _ => s = y
  end.

(** ** Sampling a linear signal *)

(** Modelled from the spec: the outer driver that walks time and supplies the
    samples is not part of the header.  The spec describes the sample as the
    rate observed at the current step and the trapezoidal rule as averaging
    the two endpoint rates of the step, the prior sample and the current one.
    So the driver, started at time [t], advances by the step [d] and passes
    the rate at the new time together with [d]. *)
Fixpoint sampled `{Scalar F} (f : F → F) (t : F) (ds : list F) : list (F * F) :=
  match ds with
  | [] => []
  | d :: ds' => (f (t + d)%S, d) :: sampled f (t + d)%S ds'
  end.

(** The other convention, for comparison: the rate is taken at the start of
    the step that is about to be integrated. *)
Fixpoint sampled_at_start `{Scalar F} (f : F → F) (t : F) (ds : list F)
  : list (F * F) :=
  match ds with
  | [] => []
  | d :: ds' => (f t, d) :: sampled_at_start f (t + d)%S ds'
  end.

(** The time the driver has reached after the steps [ds]. *)
Definition end_time `{Scalar F} (t : F) (ds : list F) : F := fold_left sadd ds t.

(** A signal that varies linearly in time, [k * t + b], and its closed-form
    integral between two times, [k * t² / 2 + b * t] taken at the two
    ends. *)
Definition linear `{Scalar F} (k b t : F) : F := (k * t + b)%S.

Definition linear_primitive `{Scalar F} (k b t : F) : F :=
  (k * (t * t) / two + b * t)%S.

Definition linear_integral `{Scalar F} (k b t0 t1 : F) : F :=
  (linear_primitive k b t1 - linear_primitive k b t0)%S.

(** The accumulator tracks the negative integral of the signal. *)
Definition exact_accumulator `{Scalar F} (a0 k b t0 : F) (ds : list F) : F :=
  (a0 - linear_integral k b t0 (end_time t0 ds))%S.

#[global] Arguments end_time : simpl never.
#[global] Arguments linear : simpl never.
#[global] Arguments linear_primitive : simpl never.
#[global] Arguments linear_integral : simpl never.
#[global] Arguments exact_accumulator : simpl never.

(** ** Single calls *)

Ltac cmd_unfold := unfold mbind, cmd_bind, mret, cmd_ret, load, store.

Section single_call.
Context `{Scalar F}.
Implicit Types (m : gmap loc F) (i y_old p : loc) (a b y dx : F).

(** The Euler body on a store where [*i] is a cell: it succeeds, and the
    new store is the old one with [*i] replaced. *)
Lemma euler_integrate_spec m i y dx y_old a :
  m !! i = Some a →
  Euler.__integrate i y dx y_old m = inr (tt, <[i := (a - y * dx)%S]> m).
Proof.
  intros Hi. unfold Euler.__integrate. cmd_unfold.
  rewrite Hi; simpl. by rewrite Hi.
Qed.

(** The trapezoidal body on a store where [*i] and [*y_old] are cells. *)
Lemma trapez_integrate_spec m i y dx y_old a b :
  m !! i = Some a →
  m !! y_old = Some b →
  Trapez.__integrate i y dx y_old m
  = inr (tt, <[y_old := y]> (<[i := (a - (y + b) / two * dx)%S]> m)).
Proof.
  intros Hi Ho. unfold Trapez.__integrate. cmd_unfold.
  rewrite Hi; simpl. rewrite Ho; simpl. rewrite Hi; simpl.
  rewrite lookup_insert. case_decide; by rewrite ?Ho.
Qed.

(** When the caller passes the same cell for both pointers, the second
    assignment overwrites the accumulator with the sample. *)
Lemma trapez_integrate_aliased m i y dx a :
  m !! i = Some a →
  Trapez.__integrate i y dx i m = inr (tt, <[i := y]> m).
Proof.
  intros Hi. rewrite (trapez_integrate_spec _ _ _ _ _ a a) by done.
  by rewrite insert_insert_eq.
Qed.

(** A call through a pointer to no cell fails, in either body. *)
Lemma euler_integrate_invalid m i y dx y_old :
  m !! i = None →
  Euler.__integrate i y dx y_old m = inl (InvalidPointer i).
Proof.
  intros Hi. unfold Euler.__integrate. cmd_unfold. by rewrite Hi.
Qed.
End single_call.

(** ** The claims about one call *)

(** C1.  On every store where the accumulator [*i] holds [a], and for every
    sample [y] and step size [dx], the Euler variant of [__integrate]
    returns and leaves [a - y * dx] in the accumulator. *)
Theorem euler_updates_accumulator `{Scalar F} (m : gmap loc F)
    (i y_old : loc) (a y dx : F) :
  m !! i = Some a →
  ∃ m', Euler.__integrate i y dx y_old m = inr (tt, m')
        ∧ m' !! i = Some (a - y * dx)%S.
Proof.
  intros Hi. eexists. split; [by apply euler_integrate_spec|].
  apply lookup_insert_eq.
Qed.

(** C2.  On every store where the accumulator [*i] holds [a] and the
    distinct cell [*y_old] holds the previous sample [b], the trapezoidal
    variant returns, leaves [a - (y + b) / 2 * dx] in the accumulator and
    the sample [y] in [*y_old]. *)
Theorem trapez_updates_accumulator_and_previous `{Scalar F} (m : gmap loc F)
    (i y_old : loc) (a b y dx : F) :
  i ≠ y_old →
  m !! i = Some a →
  m !! y_old = Some b →
  ∃ m', Trapez.__integrate i y dx y_old m = inr (tt, m')
        ∧ m' !! i = Some (a - (y + b) / two * dx)%S
        ∧ m' !! y_old = Some y.
Proof.
  intros Hne Hi Ho. eexists. split; [by apply trapez_integrate_spec|]. split.
  - rewrite lookup_insert_ne by done. apply lookup_insert_eq.
  - apply lookup_insert_eq.
Qed.

(** The translation of the header contributes exactly the definition that
    [dda_h] selects, and is never rejected. *)
Lemma translation_unit_dda_h `{Scalar F} (D : macros) :
  translation_unit D
  = Accepted (match dda_h D with Some f => [f] | None => [] end).
Proof. unfold translation_unit, dda_h. by destruct D as [[] []]. Qed.

(** C3, as the header has it.  With [RK] selected (and [TRAPEZ] not) the
    header recognises the configuration, which is neither of the other two;
    its translation is accepted without a diagnostic and contributes no
    definition of [__integrate], and this is the only configuration where it
    contributes none.  No configuration is rejected. *)
Theorem rk_selected_defines_nothing `{Scalar F} :
  translation_unit (F:=F) rk_selected = Accepted []
  ∧ dda_h (F:=F) rk_selected = None
  ∧ dda_h (F:=F) rk_selected ≠ dda_h as_shipped
  ∧ dda_h (F:=F) rk_selected ≠ dda_h trapez_selected
  ∧ (∀ D, dda_h (F:=F) D = None ↔ TRAPEZ D = false ∧ RK D = true)
  ∧ (∀ D, translation_unit (F:=F) D ≠ Rejected).
Proof.
  split; [done|]. split; [done|]. split; [done|]. split; [done|]. split.
  - intros [[] []]; unfold dda_h; simpl; split; try done; by intros [? ?].
  - intros D. by rewrite translation_unit_dda_h.
Qed.

(** C3 as stated fails on the header: with [RK] selected nothing fails.
    The translation is accepted, so there is no build-time failure, and no
    [__integrate] is defined, so there is no function whose invocation
    fails. *)
Lemma rk_selected_no_defined_failure :
  translation_unit (F:=float) rk_selected = Accepted []
  ∧ translation_unit (F:=float) rk_selected ≠ Rejected
  ∧ ¬ ∃ f, dda_h (F:=float) rk_selected = Some f
           ∧ ∀ i y dx y_old m, ∃ e, f i y dx y_old m = inl e.
Proof.
  split; [done|]. split; [done|]. by intros (f & Hf & _).
Qed.

(** C8.  The Euler variant writes the accumulator and nothing else: every
    other cell of the store, the previous sample [*y_old] among them, holds
    after the call what it held before. *)
Theorem euler_preserves_previous_sample `{Scalar F} (m : gmap loc F)
    (i y_old : loc) (a y dx : F) :
  m !! i = Some a →
  ∃ m', Euler.__integrate i y dx y_old m = inr (tt, m')
        ∧ (∀ p, p ≠ i → m' !! p = m !! p)
        ∧ (y_old ≠ i → m' !! y_old = m !! y_old).
Proof.
  intros Hi. eexists. split; [by apply euler_integrate_spec|].
  split; intros; by rewrite lookup_insert_ne.
Qed.

(** C9.  Two Euler calls with the same accumulator contents, sample and step
    size leave the same accumulator, whatever the previous-sample pointer
    and whatever the rest of the two stores hold. *)
Theorem euler_ignores_previous_sample `{Scalar F} (m1 m2 : gmap loc F)
    (i y_old1 y_old2 : loc) (a y dx : F) :
  m1 !! i = Some a →
  m2 !! i = Some a →
  ∃ m1' m2', Euler.__integrate i y dx y_old1 m1 = inr (tt, m1')
             ∧ Euler.__integrate i y dx y_old2 m2 = inr (tt, m2')
             ∧ m1' !! i = m2' !! i.
Proof.
  intros H1 H2. do 2 eexists.
  split; [by apply euler_integrate_spec|].
  split; [by apply euler_integrate_spec|].
  by rewrite !lookup_insert_eq.
Qed.

(** The single-call theorems at concrete binary64 stores: accumulator at
    address 4096, previous sample at address 4104. *)
Lemma euler_updates_accumulator_witness :
  two_cells 4096 4104 1.5%float 0.25%float !! 4096 = Some 1.5%float
  ∧ ∃ m', Euler.__integrate 4096 3%float 0.5%float 4104
            (two_cells 4096 4104 1.5%float 0.25%float) = inr (tt, m')
          ∧ m' !! 4096 = Some (1.5 - 3 * 0.5)%float.
Proof.
  split; [reflexivity|].
  exact (euler_updates_accumulator
           (two_cells 4096 4104 1.5%float 0.25%float) 4096 4104
           1.5%float 3%float 0.5%float eq_refl).
Defined.

Lemma trapez_updates_accumulator_and_previous_witness :
  4096 ≠ 4104
  ∧ two_cells 4096 4104 1.5%float 0.25%float !! 4096 = Some 1.5%float
  ∧ two_cells 4096 4104 1.5%float 0.25%float !! 4104 = Some 0.25%float
  ∧ ∃ m', Trapez.__integrate 4096 3%float 0.5%float 4104
            (two_cells 4096 4104 1.5%float 0.25%float) = inr (tt, m')
          ∧ m' !! 4096 = Some (1.5 - (3 + 0.25) / 2 * 0.5)%float
          ∧ m' !! 4104 = Some 3%float.
Proof.
  assert (Hne : (4096 : Z) ≠ 4104) by discriminate.
  split; [exact Hne|]. split; [reflexivity|]. split; [reflexivity|].
  exact (trapez_updates_accumulator_and_previous
           (two_cells 4096 4104 1.5%float 0.25%float) 4096 4104
           1.5%float 0.25%float 3%float 0.5%float Hne eq_refl eq_refl).
Defined.

Lemma euler_preserves_previous_sample_witness :
  two_cells 4096 4104 1.5%float 0.25%float !! 4096 = Some 1.5%float
  ∧ ∃ m', Euler.__integrate 4096 3%float 0.5%float 4104
            (two_cells 4096 4104 1.5%float 0.25%float) = inr (tt, m')
          ∧ (∀ p, p ≠ 4096 → m' !! p
                              = two_cells 4096 4104 1.5%float 0.25%float !! p)
          ∧ (4104 ≠ 4096 → m' !! 4104
                            = two_cells 4096 4104 1.5%float 0.25%float !! 4104).
Proof.
  split; [reflexivity|].
  exact (euler_preserves_previous_sample
           (two_cells 4096 4104 1.5%float 0.25%float) 4096 4104
           1.5%float 3%float 0.5%float eq_refl).
Defined.

Lemma euler_ignores_previous_sample_witness :
  two_cells 4096 4104 1.5%float 0.25%float !! 4096 = Some 1.5%float
  ∧ two_cells 4096 5000 1.5%float 7%float !! 4096 = Some 1.5%float
  ∧ ∃ m1' m2',
      Euler.__integrate 4096 3%float 0.5%float 4104
        (two_cells 4096 4104 1.5%float 0.25%float) = inr (tt, m1')
      ∧ Euler.__integrate 4096 3%float 0.5%float 5000
          (two_cells 4096 5000 1.5%float 7%float) = inr (tt, m2')
      ∧ m1' !! 4096 = m2' !! 4096.
Proof.
  split; [reflexivity|]. split; [reflexivity|].
  exact (euler_ignores_previous_sample
           (two_cells 4096 4104 1.5%float 0.25%float)
           (two_cells 4096 5000 1.5%float 7%float) 4096 4104 5000
           1.5%float 3%float 0.5%float eq_refl eq_refl).
Defined.

(** ** Runs of several calls *)

Section runs.
Context `{Scalar F}.
Implicit Types (m : gmap loc F) (i y_old : loc) (a b c d : F).
Implicit Types (steps : list (F * F)).

Lemma run_cons (f : loc → F → F → loc → cmd F unit) i y_old y dx steps m m' :
  f i y dx y_old m = inr (tt, m') →
  run f i y_old ((y, dx) :: steps) m = run f i y_old steps m'.
Proof. intros Hf. simpl. cmd_unfold. by rewrite Hf. Qed.

(** The Euler loop succeeds on every store where [*i] is a cell and
    changes that cell only. *)
Lemma run_euler steps : ∀ m i y_old a,
  m !! i = Some a →
  run Euler.__integrate i y_old steps m
  = inr (tt, <[i := euler_acc a steps]> m).
Proof.
  induction steps as [|[y dx] steps IH]; intros m i y_old a Hi.
  - simpl. cmd_unfold. by rewrite insert_id.
  - rewrite (run_cons _ _ _ _ _ _ _ _ (euler_integrate_spec _ _ _ _ _ _ Hi)).
    rewrite (IH _ _ _ (a - y * dx)%S) by apply lookup_insert_eq.
    by rewrite insert_insert_eq.
Qed.

(** The trapezoidal loop succeeds when [*i] and [*y_old] are two cells,
    and changes those two only. *)
Lemma run_trapez steps : ∀ m i y_old a b,
  i ≠ y_old →
  m !! i = Some a →
  m !! y_old = Some b →
  run Trapez.__integrate i y_old steps m
  = inr (tt, <[y_old := (trapez_acc (a, b) steps).2]>
               (<[i := (trapez_acc (a, b) steps).1]> m)).
Proof.
  induction steps as [|[y dx] steps IH]; intros m i y_old a b Hne Hi Ho.
  - simpl. cmd_unfold. rewrite (insert_id m i a) by done. by rewrite insert_id.
  - rewrite (run_cons _ _ _ _ _ _ _ _
               (trapez_integrate_spec _ _ _ _ _ _ _ Hi Ho)).
    rewrite (IH _ _ _ (a - (y + b) / two * dx)%S y Hne).
    + f_equal. f_equal. apply map_eq. intros p.
      rewrite !lookup_insert. by repeat case_decide.
    + rewrite lookup_insert_ne by done. apply lookup_insert_eq.
    + apply lookup_insert_eq.
Qed.

Lemma euler_acc_cons a y dx steps :
  euler_acc a ((y, dx) :: steps) = euler_acc (a - y * dx)%S steps.
Proof. reflexivity. Qed.

Lemma trapez_acc_cons a b y dx steps :
  trapez_acc (a, b) ((y, dx) :: steps)
  = trapez_acc ((a - (y + b) / two * dx)%S, y) steps.
Proof. reflexivity. Qed.

(** On a constant sample that its own average reproduces, every
    trapezoidal step is an Euler step and the stored sample stays. *)
Lemma trapez_acc_constant c d (n : nat) : ∀ a,
  ((c + c) / two)%S = c →
  trapez_acc (a, c) (repeat (c, d) n) = (euler_acc a (repeat (c, d) n), c).
Proof.
  induction n as [|n IH]; intros a Hc; [done|].
  simpl. unfold trapez_acc, euler_acc in *. simpl. rewrite Hc. by apply IH.
Qed.
End runs.

(** ** Exact real arithmetic *)

Section exact_arithmetic.
#[local] Open Scope R_scope.
Implicit Types (a c d k b t : R) (steps : list (R * R)) (ds : list R).

Lemma euler_acc_area steps : ∀ a, euler_acc a steps = a - rect_area steps.
Proof.
  unfold euler_acc. induction steps as [|[y dx] steps IH]; intros a; simpl.
  - lra.
  - rewrite IH. simpl. lra.
Qed.

Lemma rect_area_repeat c d (n : nat) :
  rect_area (repeat (c, d) n) = INR n * c * d.
Proof.
  induction n as [|n IH].
  - simpl. lra.
  - rewrite S_INR. simpl repeat. simpl rect_area. simpl in IH. rewrite IH.
    simpl. lra.
Qed.

Lemma rect_area_perm steps steps' :
  steps ≡ₚ steps' → rect_area steps = rect_area steps'.
Proof.
  induction 1 as [|x l l' _ IH|x y l|l l1 l' _ IH1 _ IH2]; simpl in *; lra.
Qed.

Lemma average_self c : ((c + c) / two)%S = c.
Proof. simpl. lra. Qed.

Lemma sum_squares_nonneg ds : 0 <= sum_squares ds.
Proof. induction ds as [|d ds IH]; simpl; [lra | nra]. Qed.
End exact_arithmetic.

(** ** The claims about constant signals, zero steps and step order *)

#[local] Set Warnings "-inexact-float".

(** Two binary64 values are different when their decoded forms are. *)
Lemma float_neq (x y : float) : Prim2SF x ≠ Prim2SF y → x ≠ y.
Proof. intros Hxy ->. by apply Hxy. Qed.

(** C4.  In exact real arithmetic: from every accumulator [a0], [n] Euler
    calls with the constant sample [c] and the constant step size [d] return
    and leave [a0 - n * c * d] in the accumulator.  In binary64: from 0,
    five Euler calls with sample 2.0 and step size 1.0 leave exactly
    -10.0. *)
Theorem euler_constant_signal :
  (∀ (m : gmap loc R) (i y_old : loc) (a0 c d : R) (n : nat),
     m !! i = Some a0 →
     ∃ m', run Euler.__integrate i y_old (repeat (c, d) n) m = inr (tt, m')
           ∧ m' !! i = Some (a0 - INR n * c * d)%R)
  ∧ (∀ (m : gmap loc float) (i y_old : loc),
       m !! i = Some 0%float →
       ∃ m', run Euler.__integrate i y_old (repeat (2%float, 1%float) 5) m
             = inr (tt, m')
             ∧ m' !! i = Some (-10)%float).
Proof.
  split.
  - intros m i y_old a0 c d n Hi. eexists. split; [by apply run_euler|].
    rewrite lookup_insert_eq, euler_acc_area, rect_area_repeat. done.
  - intros m i y_old Hi. eexists. split; [by apply run_euler|].
    by rewrite lookup_insert_eq.
Qed.

(** The spec's example over the reals: from 0, five Euler steps with sample
    2 and step 1 give -10. *)
Lemma euler_constant_signal_witness :
  two_cells 4096 4104 0%R 0%R !! 4096 = Some 0%R
  ∧ ∃ m', run Euler.__integrate 4096 4104 (repeat (2%R, 1%R) 5)
            (two_cells 4096 4104 0%R 0%R) = inr (tt, m')
          ∧ m' !! 4096 = Some (-10)%R.
Proof.
  split; [reflexivity|].
  destruct (proj1 euler_constant_signal (two_cells 4096 4104 0%R 0%R)
              4096 4104 0%R 2%R 1%R 5%nat eq_refl) as (m' & Hrun & Hacc).
  exists m'. split; [exact Hrun|].
  rewrite Hacc. f_equal. simpl. lra.
Defined.

(** C4 as stated fails in binary64: ten Euler steps with sample 0.1 and step
    1 from 0 leave -0.9999999999999999, while [0 - 10 * 0.1 * 1] is -1. *)
Lemma euler_constant_signal_binary64_rounds :
  ∃ m', run Euler.__integrate 4096 4104 (repeat (0.1%float, 1%float) 10)
          (two_cells 4096 4104 0%float 0%float) = inr (tt, m')
        ∧ m' !! 4096 = Some (-0.9999999999999999)%float
        ∧ (0 - 10 * 0.1 * 1)%float = (-1)%float
        ∧ (-0.9999999999999999)%float ≠ (-1)%float.
Proof.
  eexists. split; [vm_compute; reflexivity|].
  split; [vm_compute; reflexivity|]. split; [reflexivity|].
  apply float_neq. vm_compute. discriminate.
Qed.

(** C5.  For every constant sample [c] that its own average reproduces,
    [(c + c) / 2 = c]: with the previous sample seeded to [c], [n]
    trapezoidal calls and [n] Euler calls with sample [c] and step [d]
    return and leave exactly the same accumulator.  Every real [c] is such a
    sample.  In binary64, sample 2.0, step 1.0, five steps from 0, previous
    sample seeded to 2.0: both runs leave exactly -10.0. *)
Theorem trapez_constant_signal_matches_euler :
  (∀ `{Scalar F} (m : gmap loc F) (i y_old : loc) (a0 c d : F) (n : nat),
     i ≠ y_old →
     m !! i = Some a0 →
     m !! y_old = Some c →
     ((c + c) / two)%S = c →
     ∃ mT mE acc,
       run Trapez.__integrate i y_old (repeat (c, d) n) m = inr (tt, mT)
       ∧ run Euler.__integrate i y_old (repeat (c, d) n) m = inr (tt, mE)
       ∧ mT !! i = Some acc
       ∧ mE !! i = Some acc)
  ∧ (∀ c : R, ((c + c) / two)%S = c)
  ∧ (∀ (m : gmap loc float) (i y_old : loc),
       i ≠ y_old →
       m !! i = Some 0%float →
       m !! y_old = Some 2%float →
       ∃ mT mE,
         run Trapez.__integrate i y_old (repeat (2%float, 1%float) 5) m
         = inr (tt, mT)
         ∧ run Euler.__integrate i y_old (repeat (2%float, 1%float) 5) m
           = inr (tt, mE)
         ∧ mT !! i = Some (-10)%float
         ∧ mE !! i = Some (-10)%float).
Proof.
  split; [|split].
  - intros F HF m i y_old a0 c d n Hne Hi Ho Hc. do 3 eexists.
    split; [by apply run_trapez|]. split; [by apply run_euler|].
    rewrite trapez_acc_constant by done. simpl.
    rewrite lookup_insert_ne by done. by rewrite !lookup_insert_eq.
  - apply average_self.
  - intros m i y_old Hne Hi Ho. do 2 eexists.
    split; [by apply run_trapez|]. split; [by apply run_euler|].
    rewrite lookup_insert_ne by done. by rewrite !lookup_insert_eq.
Qed.

(** The first part at the spec's example in binary64. *)
Lemma trapez_constant_signal_matches_euler_witness :
  4096 ≠ 4104
  ∧ two_cells 4096 4104 0%float 2%float !! 4096 = Some 0%float
  ∧ two_cells 4096 4104 0%float 2%float !! 4104 = Some 2%float
  ∧ ((2 + 2) / 2)%float = 2%float
  ∧ ∃ mT mE acc,
      run Trapez.__integrate 4096 4104 (repeat (2%float, 1%float) 5)
        (two_cells 4096 4104 0%float 2%float) = inr (tt, mT)
      ∧ run Euler.__integrate 4096 4104 (repeat (2%float, 1%float) 5)
          (two_cells 4096 4104 0%float 2%float) = inr (tt, mE)
      ∧ mT !! 4096 = Some acc
      ∧ mE !! 4096 = Some acc.
Proof.
  assert (Hne : (4096 : Z) ≠ 4104) by discriminate.
  split; [exact Hne|]. split; [reflexivity|]. split; [reflexivity|].
  split; [reflexivity|].
  exact (proj1 trapez_constant_signal_matches_euler float binary64
           (two_cells 4096 4104 0%float 2%float) 4096 4104
           0%float 2%float 1%float 5%nat Hne eq_refl eq_refl eq_refl).
Defined.

(** Over the reals the side condition of C5 always holds. *)
Corollary trapez_and_euler_on_constant_signal_exact (m : gmap loc R)
    (i y_old : loc) (a0 c d : R) (n : nat) :
  i ≠ y_old →
  m !! i = Some a0 →
  m !! y_old = Some c →
  ∃ mT mE,
    run Trapez.__integrate i y_old (repeat (c, d) n) m = inr (tt, mT)
    ∧ run Euler.__integrate i y_old (repeat (c, d) n) m = inr (tt, mE)
    ∧ mT !! i = Some (a0 - INR n * c * d)%R
    ∧ mE !! i = Some (a0 - INR n * c * d)%R.
Proof.
  intros Hne Hi Ho. do 2 eexists.
  split; [by apply run_trapez|]. split; [by apply run_euler|].
  rewrite trapez_acc_constant by apply average_self. simpl.
  rewrite lookup_insert_ne by done.
  by rewrite !lookup_insert_eq, euler_acc_area, rect_area_repeat.
Qed.

(** C5 as stated fails in binary64 when [c + c] overflows: with the largest
    finite sample, seeded, one trapezoidal step of size 1 from 0 leaves
    minus infinity, and one Euler step leaves the finite negated sample. *)
Lemma trapez_constant_signal_binary64_overflows :
  ∃ mT mE,
    run Trapez.__integrate 4096 4104
      (repeat (1.7976931348623157e308%float, 1%float) 1)
      (two_cells 4096 4104 0%float 1.7976931348623157e308%float)
    = inr (tt, mT)
    ∧ run Euler.__integrate 4096 4104
        (repeat (1.7976931348623157e308%float, 1%float) 1)
        (two_cells 4096 4104 0%float 1.7976931348623157e308%float)
      = inr (tt, mE)
    ∧ mT !! 4096 = Some neg_infinity
    ∧ mE !! 4096 = Some (-1.7976931348623157e308)%float
    ∧ neg_infinity ≠ (-1.7976931348623157e308)%float.
Proof.
  do 2 eexists. split; [vm_compute; reflexivity|].
  split; [vm_compute; reflexivity|].
  split; [vm_compute; reflexivity|]. split; [vm_compute; reflexivity|].
  apply float_neq. vm_compute. discriminate.
Qed.

(** A finite value times a zero is a zero. *)
Lemma mul_zero64 (t dx : float) :
  finite64 t = true → zero64 dx = true → zero64 (t * dx) = true.
Proof.
  unfold finite64, zero64. rewrite mul_spec. unfold SF64mul.
  destruct (Prim2SF t), (Prim2SF dx); simpl; congruence.
Qed.

(** Subtracting a zero returns the value itself, except that -0 - -0 is
    +0. *)
Lemma sub_zero64 (a z : float) :
  zero64 z = true →
  (a - z)%float = a ∨ (a = (-0)%float ∧ (a - z)%float = 0%float).
Proof.
  unfold zero64. intros Hz.
  destruct (Prim2SF z) as [sz| | |] eqn:Ez; try discriminate.
  destruct (Prim2SF a) as [[] | | |] eqn:Ea.
  - destruct sz.
    + right. split; apply Prim2SF_inj; [by rewrite Ea|].
      rewrite sub_spec, Ea, Ez. reflexivity.
    + left. apply Prim2SF_inj. rewrite sub_spec, Ea, Ez. reflexivity.
  - left. apply Prim2SF_inj. rewrite sub_spec, Ea, Ez. by destruct sz.
  - left. apply Prim2SF_inj. rewrite sub_spec, Ea, Ez. reflexivity.
  - left. apply Prim2SF_inj. rewrite sub_spec, Ea, Ez. reflexivity.
  - left. apply Prim2SF_inj. rewrite sub_spec, Ea, Ez. reflexivity.
Qed.

Lemma sub_mul_zero64 (a t dx : float) :
  finite64 t = true →
  zero64 dx = true →
  (a - t * dx)%float = a
  ∨ (a = (-0)%float ∧ (a - t * dx)%float = 0%float).
Proof. intros Ht Hdx. by apply sub_zero64, mul_zero64. Qed.

(** C6.  In exact real arithmetic: for every accumulator, sample and
    previous sample, one call of either variant with step size 0 returns
    and leaves the accumulator as it was.  In binary64: the same holds for
    a step size that is a zero whenever the sample term (the sample for the
    Euler variant, [(y + y_old) / 2] for the trapezoidal one) is finite,
    except that an accumulator -0.0 may become +0.0. *)
Theorem zero_step_keeps_accumulator :
  (∀ (m : gmap loc R) (i y_old : loc) (a b y : R),
     i ≠ y_old →
     m !! i = Some a →
     m !! y_old = Some b →
     (∃ mE, Euler.__integrate i y 0%R y_old m = inr (tt, mE)
            ∧ mE !! i = Some a)
     ∧ (∃ mT, Trapez.__integrate i y 0%R y_old m = inr (tt, mT)
              ∧ mT !! i = Some a))
  ∧ (∀ (m : gmap loc float) (i y_old : loc) (a b y dx : float),
       i ≠ y_old →
       m !! i = Some a →
       m !! y_old = Some b →
       zero64 dx = true →
       (finite64 y = true →
        ∃ mE a', Euler.__integrate i y dx y_old m = inr (tt, mE)
                 ∧ mE !! i = Some a'
                 ∧ (a' = a ∨ (a = (-0)%float ∧ a' = 0%float)))
       ∧ (finite64 ((y + b) / 2) = true →
          ∃ mT a', Trapez.__integrate i y dx y_old m = inr (tt, mT)
                   ∧ mT !! i = Some a'
                   ∧ (a' = a ∨ (a = (-0)%float ∧ a' = 0%float)))).
Proof.
  split.
  - intros m i y_old a b y Hne Hi Ho. split; eexists.
    + split; [by apply euler_integrate_spec|].
      rewrite lookup_insert_eq. f_equal. simpl. lra.
    + split; [by apply trapez_integrate_spec|].
      rewrite lookup_insert_ne by done. rewrite lookup_insert_eq.
      f_equal. simpl. lra.
  - intros m i y_old a b y dx Hne Hi Ho Hdx. split; intros Hfin; do 2 eexists.
    + split; [by apply euler_integrate_spec|].
      split; [apply lookup_insert_eq|]. by apply sub_mul_zero64.
    + split; [by apply trapez_integrate_spec|].
      split; [rewrite lookup_insert_ne by done; apply lookup_insert_eq|].
      by apply (sub_mul_zero64 a ((y + b) / 2)%float dx).
Qed.

(** Both parts at concrete stores; in binary64 with the step size -0.0. *)
Lemma zero_step_keeps_accumulator_witness :
  4096 ≠ 4104
  ∧ two_cells 4096 4104 7%R 3%R !! 4096 = Some 7%R
  ∧ two_cells 4096 4104 7%R 3%R !! 4104 = Some 3%R
  ∧ two_cells 4096 4104 7%float 3%float !! 4096 = Some 7%float
  ∧ two_cells 4096 4104 7%float 3%float !! 4104 = Some 3%float
  ∧ zero64 (-0)%float = true
  ∧ finite64 5%float = true
  ∧ finite64 ((5 + 3) / 2)%float = true
  ∧ ((∃ mE, Euler.__integrate 4096 5%R 0%R 4104 (two_cells 4096 4104 7%R 3%R)
            = inr (tt, mE)
            ∧ mE !! 4096 = Some 7%R)
     ∧ (∃ mT, Trapez.__integrate 4096 5%R 0%R 4104
                (two_cells 4096 4104 7%R 3%R) = inr (tt, mT)
              ∧ mT !! 4096 = Some 7%R))
  ∧ (∃ mE a', Euler.__integrate 4096 5%float (-0)%float 4104
                (two_cells 4096 4104 7%float 3%float) = inr (tt, mE)
              ∧ mE !! 4096 = Some a'
              ∧ (a' = 7%float ∨ (7%float = (-0)%float ∧ a' = 0%float)))
  ∧ (∃ mT a', Trapez.__integrate 4096 5%float (-0)%float 4104
                (two_cells 4096 4104 7%float 3%float) = inr (tt, mT)
              ∧ mT !! 4096 = Some a'
              ∧ (a' = 7%float ∨ (7%float = (-0)%float ∧ a' = 0%float))).
Proof.
  assert (Hne : (4096 : Z) ≠ 4104) by discriminate.
  split; [exact Hne|]. do 7 (split; [reflexivity|]).
  split.
  - exact (proj1 zero_step_keeps_accumulator (two_cells 4096 4104 7%R 3%R)
             4096 4104 7%R 3%R 5%R Hne eq_refl eq_refl).
  - destruct (proj2 zero_step_keeps_accumulator
                (two_cells 4096 4104 7%float 3%float) 4096 4104
                7%float 3%float 5%float (-0)%float Hne eq_refl eq_refl eq_refl)
      as [HE HT].
    split; [exact (HE eq_refl) | exact (HT eq_refl)].
Defined.

(** In binary64 a zero step keeps the accumulator on ordinary inputs. *)
Example zero_step_binary64 :
  ∃ mE mT,
    Euler.__integrate 4096 5%float 0%float 4104
      (two_cells 4096 4104 7%float 3%float) = inr (tt, mE)
    ∧ Trapez.__integrate 4096 5%float 0%float 4104
        (two_cells 4096 4104 7%float 3%float) = inr (tt, mT)
    ∧ mE !! 4096 = Some 7%float
    ∧ mT !! 4096 = Some 7%float.
Proof. do 2 eexists. repeat split; vm_compute; reflexivity. Qed.

(** The exception is real: with accumulator -0.0 and sample -1.0 a zero
    step leaves +0.0. *)
Example zero_step_binary64_negative_zero :
  ∃ mE, Euler.__integrate 4096 (-1)%float 0%float 4104
          (two_cells 4096 4104 (-0)%float 0%float) = inr (tt, mE)
        ∧ mE !! 4096 = Some 0%float
        ∧ 0%float ≠ (-0)%float.
Proof.
  eexists. split; [vm_compute; reflexivity|].
  split; [vm_compute; reflexivity|].
  apply float_neq. vm_compute. discriminate.
Qed.

(** C6 as stated fails in binary64 when the sample term is not finite, since
    the product with 0 is then NaN: for the trapezoidal variant already with
    finite samples whose sum overflows, for the Euler variant with an
    infinite sample. *)
Lemma zero_step_binary64_nan :
  ∃ mT mE,
    Trapez.__integrate 4096 1.7976931348623157e308%float 0%float 4104
      (two_cells 4096 4104 1%float 1.7976931348623157e308%float)
    = inr (tt, mT)
    ∧ Euler.__integrate 4096 infinity 0%float 4104
        (two_cells 4096 4104 1%float 0%float)
      = inr (tt, mE)
    ∧ mT !! 4096 = Some nan
    ∧ mE !! 4096 = Some nan
    ∧ nan ≠ 1%float.
Proof.
  do 2 eexists. split; [vm_compute; reflexivity|].
  split; [vm_compute; reflexivity|].
  split; [vm_compute; reflexivity|]. split; [vm_compute; reflexivity|].
  apply float_neq. vm_compute. discriminate.
Qed.

(** C10, in exact real arithmetic.  From every accumulator, Euler calls over
    a list of (sample, step size) pairs and over any permutation of it
    return and leave the same store, hence the same accumulator. *)
Theorem euler_order_immaterial (m : gmap loc R) (i y_old : loc) (a0 : R)
    (steps steps' : list (R * R)) :
  m !! i = Some a0 →
  steps ≡ₚ steps' →
  ∃ m' acc, run Euler.__integrate i y_old steps m = inr (tt, m')
            ∧ run Euler.__integrate i y_old steps' m = inr (tt, m')
            ∧ m' !! i = Some acc.
Proof.
  intros Hi Hperm. do 2 eexists.
  split; [by apply run_euler|]. split.
  - rewrite (run_euler _ _ _ _ _ Hi).
    by rewrite !euler_acc_area, (rect_area_perm _ _ Hperm).
  - apply lookup_insert_eq.
Qed.

Lemma euler_order_immaterial_witness :
  two_cells 4096 4104 1%R 0%R !! 4096 = Some 1%R
  ∧ [(2%R, 3%R); (5%R, 7%R); (11%R, 13%R)]
    ≡ₚ [(11%R, 13%R); (2%R, 3%R); (5%R, 7%R)]
  ∧ ∃ m' acc,
      run Euler.__integrate 4096 4104 [(2%R, 3%R); (5%R, 7%R); (11%R, 13%R)]
        (two_cells 4096 4104 1%R 0%R) = inr (tt, m')
      ∧ run Euler.__integrate 4096 4104 [(11%R, 13%R); (2%R, 3%R); (5%R, 7%R)]
          (two_cells 4096 4104 1%R 0%R) = inr (tt, m')
      ∧ m' !! 4096 = Some acc.
Proof.
  assert (Hperm : [(2%R, 3%R); (5%R, 7%R); (11%R, 13%R)]
                  ≡ₚ [(11%R, 13%R); (2%R, 3%R); (5%R, 7%R)]).
  { symmetry. exact (Permutation_cons_append _ _). }
  split; [reflexivity|]. split; [exact Hperm|].
  exact (euler_order_immaterial (two_cells 4096 4104 1%R 0%R) 4096 4104 1%R
           _ _ eq_refl Hperm).
Defined.

(** In binary64 the order of the steps does matter, which is why C10 is
    about exact arithmetic: the sample 1 is absorbed when it is subtracted
    from -1e16 and survives when it is subtracted last. *)
Remark euler_order_binary64 :
  ∃ m1 m2,
    run Euler.__integrate 4096 4104
      [(1e16%float, 1%float); (1%float, 1%float); ((-1e16)%float, 1%float)]
      (two_cells 4096 4104 0%float 0%float) = inr (tt, m1)
    ∧ run Euler.__integrate 4096 4104
        [(1e16%float, 1%float); ((-1e16)%float, 1%float); (1%float, 1%float)]
        (two_cells 4096 4104 0%float 0%float) = inr (tt, m2)
    ∧ m1 !! 4096 = Some 0%float
    ∧ m2 !! 4096 = Some (-1)%float.
Proof. do 2 eexists. repeat split; vm_compute; reflexivity. Qed.

(** ** Linear signals: trapezoidal rule against Euler rule *)

Section linear_signal.
#[local] Open Scope R_scope.
Variables k b : R.
Implicit Types (a t d : R) (ds : list R).

(** [linear_primitive] is a primitive of [linear]: the closed form is the
    integral of the signal. *)
Lemma linear_primitive_derivative t :
  derivable_pt_lim (linear_primitive k b) t (linear k b t).
Proof.
  intros eps Heps.
  assert (Hpos : 0 < eps / (Rabs (k / 2) + 1)).
  { apply Rdiv_lt_0_compat; [done|]. pose proof (Rabs_pos (k / 2)). lra. }
  exists (mkposreal _ Hpos). intros h Hh Hlt. simpl in Hlt.
  replace ((linear_primitive k b (t + h) - linear_primitive k b t) / h
           - linear k b t) with (k / 2 * h)
    by (unfold linear_primitive, linear; simpl; field; done).
  rewrite Rabs_mult.
  pose proof (Rabs_pos (k / 2)) as Hk. pose proof (Rabs_pos h) as Hh'.
  apply Rle_lt_trans with (Rabs (k / 2) * (eps / (Rabs (k / 2) + 1))).
  - apply Rmult_le_compat_l; lra.
  - apply Rmult_lt_reg_r with (Rabs (k / 2) + 1); [lra|].
    replace (Rabs (k / 2) * (eps / (Rabs (k / 2) + 1)) * (Rabs (k / 2) + 1))
      with (Rabs (k / 2) * eps) by (field; lra).
    nra.
Qed.

Lemma linear_integral_refl t : linear_integral k b t t = 0.
Proof. unfold linear_integral. simpl. lra. Qed.

Lemma linear_integral_chain t0 t1 t2 :
  linear_integral k b t0 t1 + linear_integral k b t1 t2
  = linear_integral k b t0 t2.
Proof. unfold linear_integral. simpl. lra. Qed.

(** Over one step the average of the two endpoint rates is exact. *)
Lemma trapezoid_exact_on_step t d :
  (linear k b (t + d) + linear k b t) / 2 * d
  = linear_integral k b t (t + d).
Proof. unfold linear_integral, linear_primitive, linear. simpl. field. Qed.

(** Over one step the rate at the end is off by [k / 2 * d²]. *)
Lemma rectangle_error_on_step t d :
  linear k b (t + d) * d
  = linear_integral k b t (t + d) + k / 2 * (d * d).
Proof. unfold linear_integral, linear_primitive, linear. simpl. field. Qed.

Lemma end_time_cons t d ds : end_time t (d :: ds) = end_time (t + d) ds.
Proof. reflexivity. Qed.

(** Once the stored sample is the rate at the start of the step, the
    trapezoidal accumulator follows the integral exactly. *)
Lemma trapez_acc_sampled ds : ∀ t a,
  trapez_acc (a, linear k b t) (sampled (linear k b) t ds)
  = (a - linear_integral k b t (end_time t ds), linear k b (end_time t ds)).
Proof.
  induction ds as [|d ds IH]; intros t a.
  - unfold end_time. simpl. f_equal. rewrite linear_integral_refl. lra.
  - rewrite end_time_cons. simpl sampled. rewrite trapez_acc_cons. simpl.
    rewrite IH. f_equal.
    rewrite <- (linear_integral_chain t (t + d)).
    rewrite <- trapezoid_exact_on_step. lra.
Qed.

(** The Euler accumulator drifts from the integral by [k / 2] times the
    sum of the squared step sizes. *)
Lemma euler_acc_sampled ds : ∀ t a,
  euler_acc a (sampled (linear k b) t ds)
  = a - linear_integral k b t (end_time t ds) - k / 2 * sum_squares ds.
Proof.
  induction ds as [|d ds IH]; intros t a.
  - unfold end_time. simpl. rewrite linear_integral_refl. lra.
  - rewrite end_time_cons. simpl sampled. rewrite euler_acc_cons. simpl.
    rewrite IH.
    rewrite <- (linear_integral_chain t (t + d)).
    rewrite rectangle_error_on_step. lra.
Qed.

(** The two final errors of a seeded run. *)
Lemma euler_error a t ds :
  euler_acc a (sampled (linear k b) t ds) - exact_accumulator a k b t ds
  = - (k / 2) * sum_squares ds.
Proof. rewrite euler_acc_sampled. unfold exact_accumulator. simpl. lra. Qed.

Lemma trapez_error a t d ds :
  (trapez_acc (a, linear k b (t + d))
     (sampled (linear k b) t (d :: ds))).1
  - exact_accumulator a k b t (d :: ds)
  = - (k / 2) * (d * d).
Proof.
  unfold exact_accumulator. rewrite end_time_cons.
  simpl sampled. rewrite trapez_acc_cons. simpl.
  rewrite trapez_acc_sampled. simpl.
  rewrite <- (linear_integral_chain t (t + d) (end_time (t + d) ds)).
  replace ((linear k b (t + d) + linear k b (t + d)) / 2 * d)
    with (linear k b (t + d) * d) by lra.
  rewrite rectangle_error_on_step. lra.
Qed.
End linear_signal.

(** C7, in exact real arithmetic, for a signal sampled at the end of each
    step.  For every linear signal [k * t + b], start time, list of step
    sizes and starting accumulator, with the previous sample seeded with the
    first sample: the trapezoidal run and the Euler run both return, and the
    distance of the trapezoidal accumulator from the closed-form integral is
    at most that of the Euler accumulator. *)
Theorem trapez_error_le_euler_error (m : gmap loc R) (i y_old : loc)
    (a0 s k b t0 : R) (ds : list R) :
  i ≠ y_old →
  m !! i = Some a0 →
  m !! y_old = Some s →
  seeded s (sampled (linear k b) t0 ds) →
  ∃ mT mE accT accE,
    run Trapez.__integrate i y_old (sampled (linear k b) t0 ds) m = inr (tt, mT)
    ∧ run Euler.__integrate i y_old (sampled (linear k b) t0 ds) m = inr (tt, mE)
    ∧ mT !! i = Some accT
    ∧ mE !! i = Some accE
    ∧ (Rabs (accT - exact_accumulator a0 k b t0 ds)
       <= Rabs (accE - exact_accumulator a0 k b t0 ds))%R.
Proof.
  intros Hne Hi Ho Hseed. do 4 eexists.
  split; [by apply run_trapez|]. split; [by apply run_euler|].
  split; [rewrite lookup_insert_ne by done; apply lookup_insert_eq|].
  split; [apply lookup_insert_eq|].
  destruct ds as [|d ds].
  - simpl. apply Rle_refl.
  - simpl in Hseed. subst s.
    rewrite trapez_error, euler_error.
    rewrite (Rabs_mult _ (d * d)), (Rabs_mult _ (sum_squares (d :: ds))).
    apply Rmult_le_compat_l; [apply Rabs_pos|].
    pose proof (sum_squares_nonneg ds) as Hsq.
    change (sum_squares (d :: ds)) with (d * d + sum_squares ds)%R.
    rewrite !Rabs_pos_eq; nra.
Qed.

(** The signal [t], sampled after each of two unit steps from time 0. *)
Lemma trapez_error_le_euler_error_witness :
  4096 ≠ 4104
  ∧ two_cells 4096 4104 0%R (linear 1%R 0%R (0 + 1)%R) !! 4096 = Some 0%R
  ∧ two_cells 4096 4104 0%R (linear 1%R 0%R (0 + 1)%R) !! 4104
    = Some (linear 1%R 0%R (0 + 1)%R)
  ∧ seeded (linear 1%R 0%R (0 + 1)%R) (sampled (linear 1%R 0%R) 0%R [1%R; 1%R])
  ∧ ∃ mT mE accT accE,
      run Trapez.__integrate 4096 4104 (sampled (linear 1%R 0%R) 0%R [1%R; 1%R])
        (two_cells 4096 4104 0%R (linear 1%R 0%R (0 + 1)%R)) = inr (tt, mT)
      ∧ run Euler.__integrate 4096 4104 (sampled (linear 1%R 0%R) 0%R [1%R; 1%R])
          (two_cells 4096 4104 0%R (linear 1%R 0%R (0 + 1)%R)) = inr (tt, mE)
      ∧ mT !! 4096 = Some accT
      ∧ mE !! 4096 = Some accE
      ∧ (Rabs (accT - exact_accumulator 0 1 0 0 [1; 1]%R)
         <= Rabs (accE - exact_accumulator 0 1 0 0 [1; 1]%R))%R.
Proof.
  assert (Hne : (4096 : Z) ≠ 4104) by discriminate.
  split; [exact Hne|]. split; [reflexivity|]. split; [reflexivity|].
  split; [reflexivity|].
  exact (trapez_error_le_euler_error
           (two_cells 4096 4104 0%R (linear 1%R 0%R (0 + 1)%R)) 4096 4104
           0%R (linear 1%R 0%R (0 + 1)%R) 1%R 0%R 0%R [1%R; 1%R]
           Hne eq_refl eq_refl eq_refl).
Defined.

(** C7 as stated fails in binary64.  The signal [2^1023 * t + 0.75 * 2^1023]
    sampled after each of two steps of size 0.25 from time 0 gives the finite
    samples 2^1023 and 1.25 * 2^1023.  The Euler run ends at -1.125 * 2^1022,
    at distance 2^1019 from the integral -2^1022; in the seeded trapezoidal
    run the sum of two samples overflows and the accumulator ends at minus
    infinity. *)
Lemma trapez_error_binary64_overflows :
  seeded 0x1p+1023%float
    (sampled (linear 0x1p+1023%float 0x1.8p+1022%float) 0%float
       [0.25%float; 0.25%float])
  ∧ sampled (linear 0x1p+1023%float 0x1.8p+1022%float) 0%float
      [0.25%float; 0.25%float]
    = [(0x1p+1023%float, 0.25%float); (0x1.4p+1023%float, 0.25%float)]
  ∧ exact_accumulator 0%float 0x1p+1023%float 0x1.8p+1022%float 0%float
      [0.25%float; 0.25%float] = (-0x1p+1022)%float
  ∧ ∃ mT mE,
      run Trapez.__integrate 4096 4104
        (sampled (linear 0x1p+1023%float 0x1.8p+1022%float) 0%float
           [0.25%float; 0.25%float])
        (two_cells 4096 4104 0%float 0x1p+1023%float) = inr (tt, mT)
      ∧ run Euler.__integrate 4096 4104
          (sampled (linear 0x1p+1023%float 0x1.8p+1022%float) 0%float
             [0.25%float; 0.25%float])
          (two_cells 4096 4104 0%float 0x1p+1023%float) = inr (tt, mE)
      ∧ mT !! 4096 = Some neg_infinity
      ∧ mE !! 4096 = Some (-0x1.2p+1022)%float
      ∧ abs (neg_infinity - -0x1p+1022)%float = infinity
      ∧ abs (-0x1.2p+1022 - -0x1p+1022)%float = 0x1p+1019%float
      ∧ (infinity <=? 0x1p+1019)%float = false.
Proof.
  split; [reflexivity|]. split; [reflexivity|]. split; [reflexivity|].
  do 2 eexists. repeat split; vm_compute; reflexivity.
Qed.

(** The inequality of C7 rests on the sampling convention.  For the same
    signal and steps sampled at the start of each step, the seeded
    trapezoidal run ends at -1/2 and the Euler run at -1, while the integral
    gives -2: here the trapezoidal accumulator is the farther one. *)
Remark trapez_error_with_start_sampling :
  ∃ mT mE,
    run Trapez.__integrate 4096 4104
      (sampled_at_start (linear 1%R 0%R) 0%R [1%R; 1%R])
      (two_cells 4096 4104 0%R (linear 1%R 0%R 0%R)) = inr (tt, mT)
    ∧ run Euler.__integrate 4096 4104
        (sampled_at_start (linear 1%R 0%R) 0%R [1%R; 1%R])
        (two_cells 4096 4104 0%R (linear 1%R 0%R 0%R)) = inr (tt, mE)
    ∧ mT !! 4096 = Some (- (1 / 2))%R
    ∧ mE !! 4096 = Some (- 1)%R
    ∧ exact_accumulator 0%R 1%R 0%R 0%R [1%R; 1%R] = (- 2)%R.
Proof.
  assert (Hne : (4096 : Z) ≠ 4104) by discriminate.
  do 2 eexists.
  split; [by apply (run_trapez _ _ _ _ 0%R (linear 1%R 0%R 0%R))|].
  split; [by apply (run_euler _ _ _ _ 0%R)|].
  split; [rewrite lookup_insert_ne by done; rewrite lookup_insert_eq|].
  2: split; [rewrite lookup_insert_eq|].
  - f_equal. unfold linear. simpl. lra.
  - f_equal. unfold linear. simpl. lra.
  - unfold exact_accumulator, linear_integral, linear_primitive, end_time.
    simpl. lra.
Qed.

(** * Further properties of the header *)

(** ** Which calls succeed, and what they leave alone *)

(** X1.  The Euler call succeeds exactly when [i] points to a cell, whatever
    [y_old] is: the body never dereferences it.  The trapezoidal call
    succeeds exactly when both [i] and [y_old] point to cells. *)
Theorem integrate_succeeds_iff `{Scalar F} (m : gmap loc F)
    (i y_old : loc) (y dx : F) :
  ((∃ m', Euler.__integrate i y dx y_old m = inr (tt, m'))
   ↔ is_Some (m !! i))
  ∧ ((∃ m', Trapez.__integrate i y dx y_old m = inr (tt, m'))
     ↔ is_Some (m !! i) ∧ is_Some (m !! y_old)).
Proof.
  split; split.
  - intros [m' Hrun]. destruct (m !! i) as [a|] eqn:Hi; [by eexists|].
    by rewrite euler_integrate_invalid in Hrun.
  - intros [a Hi]. eexists. by apply euler_integrate_spec.
  - intros [m' Hrun].
    unfold Trapez.__integrate, mbind, cmd_bind, load in Hrun.
    destruct (m !! i) as [a|] eqn:Hi; [|done]. simpl in Hrun.
    destruct (m !! y_old) as [b|] eqn:Ho; [|done]. split; by eexists.
  - intros [[a Hi] [b Ho]]. eexists. by apply trapez_integrate_spec.
Qed.

(** X2.  When the caller passes the same cell for [i] and [y_old], the
    trapezoidal call returns with the sample [y] in that cell, whatever the
    accumulator and step size were: the second assignment overwrites the
    first.  No other cell changes. *)
Theorem trapez_same_cell_keeps_sample `{Scalar F} (m : gmap loc F)
    (i : loc) (a y dx : F) :
  m !! i = Some a →
  ∃ m', Trapez.__integrate i y dx i m = inr (tt, m')
        ∧ m' !! i = Some y
        ∧ ∀ p, p ≠ i → m' !! p = m !! p.
Proof.
  intros Hi. eexists. split; [by apply trapez_integrate_spec|]. split.
  - apply lookup_insert_eq.
  - intros p Hp. by rewrite !lookup_insert_ne.
Qed.

Lemma trapez_same_cell_keeps_sample_witness :
  two_cells 4096 4104 1.5%float 0.25%float !! 4096 = Some 1.5%float
  ∧ ∃ m', Trapez.__integrate 4096 3%float 0.5%float 4096
            (two_cells 4096 4104 1.5%float 0.25%float) = inr (tt, m')
          ∧ m' !! 4096 = Some 3%float
          ∧ ∀ p, p ≠ 4096 →
                 m' !! p = two_cells 4096 4104 1.5%float 0.25%float !! p.
Proof.
  split; [reflexivity|].
  exact (trapez_same_cell_keeps_sample
           (two_cells 4096 4104 1.5%float 0.25%float) 4096
           1.5%float 3%float 0.5%float eq_refl).
Defined.

(** X3.  The trapezoidal call writes [*i] and [*y_old] and nothing else:
    every other cell holds afterwards what it held before, and the set of
    allocated cells is the same (the call neither allocates nor frees). *)
Theorem trapez_frame `{Scalar F} (m : gmap loc F)
    (i y_old : loc) (a b y dx : F) :
  m !! i = Some a →
  m !! y_old = Some b →
  ∃ m', Trapez.__integrate i y dx y_old m = inr (tt, m')
        ∧ (∀ p, p ≠ i → p ≠ y_old → m' !! p = m !! p)
        ∧ dom m' = dom m.
Proof.
  intros Hi Ho. eexists. split; [by apply trapez_integrate_spec|]. split.
  - intros p Hpi Hpo. by rewrite !lookup_insert_ne.
  - rewrite dom_insert_lookup_L.
    + apply dom_insert_lookup_L. by eexists.
    + rewrite lookup_insert. case_decide; by eexists.
Qed.

Lemma trapez_frame_witness :
  two_cells 4096 4104 1.5%float 0.25%float !! 4096 = Some 1.5%float
  ∧ two_cells 4096 4104 1.5%float 0.25%float !! 4104 = Some 0.25%float
  ∧ ∃ m', Trapez.__integrate 4096 3%float 0.5%float 4104
            (two_cells 4096 4104 1.5%float 0.25%float) = inr (tt, m')
          ∧ (∀ p, p ≠ 4096 → p ≠ 4104 →
                  m' !! p = two_cells 4096 4104 1.5%float 0.25%float !! p)
          ∧ dom m' = dom (two_cells 4096 4104 1.5%float 0.25%float).
Proof.
  split; [reflexivity|]. split; [reflexivity|].
  exact (trapez_frame (two_cells 4096 4104 1.5%float 0.25%float) 4096 4104
           1.5%float 0.25%float 3%float 0.5%float eq_refl eq_refl).
Defined.




(** ** The stored previous sample *)

Lemma default_last_cons {A} (b y : A) (l : list A) :
  default b (last (y :: l)) = default y (last l).
Proof. rewrite last_cons. by destruct (last l). Qed.

Lemma trapez_acc_previous `{Scalar F} (steps : list (F * F)) : ∀ a b,
  (trapez_acc (a, b) steps).2 = default b (last steps.*1).
Proof.
  induction steps as [|[y dx] steps IH]; intros a b; [done|].
  rewrite trapez_acc_cons, IH. simpl. by rewrite default_last_cons.
Qed.

(** X5.  After any run of trapezoidal calls on two distinct cells, [*y_old]
    holds the sample of the last call, and what it held before when the run
    is empty. *)
Theorem trapez_run_stores_last_sample `{Scalar F} (m : gmap loc F)
    (i y_old : loc) (a b : F) (steps : list (F * F)) :
  i ≠ y_old →
  m !! i = Some a →
  m !! y_old = Some b →
  ∃ m', run Trapez.__integrate i y_old steps m = inr (tt, m')
        ∧ m' !! y_old = Some (default b (last steps.*1)).
Proof.
  intros Hne Hi Ho. eexists. split; [by apply run_trapez|].
  by rewrite lookup_insert_eq, trapez_acc_previous.
Qed.

Lemma trapez_run_stores_last_sample_witness :
  4096 ≠ 4104
  ∧ two_cells 4096 4104 0%float 2%float !! 4096 = Some 0%float
  ∧ two_cells 4096 4104 0%float 2%float !! 4104 = Some 2%float
  ∧ ∃ m', run Trapez.__integrate 4096 4104
            [(3%float, 0.5%float); (5%float, 0.25%float)]
            (two_cells 4096 4104 0%float 2%float) = inr (tt, m')
          ∧ m' !! 4104
            = Some (default 2%float
                      (last [(3%float, 0.5%float); (5%float, 0.25%float)].*1)).
Proof.
  assert (Hne : (4096 : Z) ≠ 4104) by discriminate.
  split; [exact Hne|]. split; [reflexivity|]. split; [reflexivity|].
  exact (trapez_run_stores_last_sample (two_cells 4096 4104 0%float 2%float)
           4096 4104 0%float 2%float
           [(3%float, 0.5%float); (5%float, 0.25%float)]
           Hne eq_refl eq_refl).
Defined.

(** ** NaN in binary64 *)

Section nan.
Implicit Types (x y z : float).

Lemma Prim2SF_nan : Prim2SF nan = S754_nan.
Proof. reflexivity. Qed.

Lemma sub_nan_l z : (nan - z)%float = nan.
Proof. apply Prim2SF_inj. by rewrite sub_spec, Prim2SF_nan. Qed.

Lemma sub_nan_r x : (x - nan)%float = nan.
Proof.
  apply Prim2SF_inj. rewrite sub_spec, Prim2SF_nan.
  by destruct (Prim2SF x).
Qed.

Lemma mul_nan_l z : (nan * z)%float = nan.
Proof. apply Prim2SF_inj. by rewrite mul_spec, Prim2SF_nan. Qed.

Lemma mul_nan_r x : (x * nan)%float = nan.
Proof.
  apply Prim2SF_inj. rewrite mul_spec, Prim2SF_nan.
  by destruct (Prim2SF x).
Qed.

Lemma add_nan_l z : (nan + z)%float = nan.
Proof. apply Prim2SF_inj. by rewrite add_spec, Prim2SF_nan. Qed.

Lemma add_nan_r x : (x + nan)%float = nan.
Proof.
  apply Prim2SF_inj. rewrite add_spec, Prim2SF_nan.
  by destruct (Prim2SF x).
Qed.

Lemma div_nan_l z : (nan / z)%float = nan.
Proof. apply Prim2SF_inj. by rewrite div_spec, Prim2SF_nan. Qed.

Lemma euler_acc_nan (steps : list (float * float)) :
  euler_acc nan steps = nan.
Proof.
  induction steps as [|[y dx] steps IH]; [done|].
  rewrite euler_acc_cons. simpl. by rewrite sub_nan_l.
Qed.

Lemma trapez_acc_nan (steps : list (float * float)) : ∀ b,
  (trapez_acc (nan, b) steps).1 = nan.
Proof.
  induction steps as [|[y dx] steps IH]; intros b; [done|].
  rewrite trapez_acc_cons. simpl. by rewrite sub_nan_l.
Qed.
End nan.

(** X6.  In binary64, once the accumulator is NaN it is NaN after every
    further run of calls of either variant, whatever the samples and step
    sizes. *)
Theorem nan_accumulator_stays (m : gmap loc float) (i y_old : loc)
    (b : float) (steps : list (float * float)) :
  i ≠ y_old →
  m !! i = Some nan →
  m !! y_old = Some b →
  (∃ mE, run Euler.__integrate i y_old steps m = inr (tt, mE)
         ∧ mE !! i = Some nan)
  ∧ (∃ mT, run Trapez.__integrate i y_old steps m = inr (tt, mT)
           ∧ mT !! i = Some nan).
Proof.
  intros Hne Hi Ho. split; eexists.
  - split; [by apply run_euler|].
    by rewrite lookup_insert_eq, euler_acc_nan.
  - split; [by apply run_trapez|].
    rewrite lookup_insert_ne by done.
    by rewrite lookup_insert_eq, trapez_acc_nan.
Qed.

Lemma nan_accumulator_stays_witness :
  4096 ≠ 4104
  ∧ two_cells 4096 4104 nan 2%float !! 4096 = Some nan
  ∧ two_cells 4096 4104 nan 2%float !! 4104 = Some 2%float
  ∧ (∃ mE, run Euler.__integrate 4096 4104
             [(3%float, 0.5%float); (5%float, 0.25%float)]
             (two_cells 4096 4104 nan 2%float) = inr (tt, mE)
           ∧ mE !! 4096 = Some nan)
  ∧ (∃ mT, run Trapez.__integrate 4096 4104
             [(3%float, 0.5%float); (5%float, 0.25%float)]
             (two_cells 4096 4104 nan 2%float) = inr (tt, mT)
           ∧ mT !! 4096 = Some nan).
Proof.
  assert (Hne : (4096 : Z) ≠ 4104) by discriminate.
  split; [exact Hne|]. split; [reflexivity|]. split; [reflexivity|].
  exact (nan_accumulator_stays (two_cells 4096 4104 nan 2%float) 4096 4104
           2%float [(3%float, 0.5%float); (5%float, 0.25%float)]
           Hne eq_refl eq_refl).
Defined.

(** X7.  In binary64, one call makes the accumulator NaN as soon as an
    operand of the update is NaN: the sample or the step size for the Euler
    variant; the sample, the stored previous sample or the step size for the
    trapezoidal variant. *)
Theorem nan_operand_poisons_accumulator (m : gmap loc float) (i y_old : loc)
    (a b y dx : float) :
  i ≠ y_old →
  m !! i = Some a →
  m !! y_old = Some b →
  (y = nan ∨ dx = nan →
   ∃ mE, Euler.__integrate i y dx y_old m = inr (tt, mE)
         ∧ mE !! i = Some nan)
  ∧ (y = nan ∨ b = nan ∨ dx = nan →
     ∃ mT, Trapez.__integrate i y dx y_old m = inr (tt, mT)
           ∧ mT !! i = Some nan).
Proof.
  intros Hne Hi Ho. split; intros Hnan; eexists.
  - split; [by apply euler_integrate_spec|].
    rewrite lookup_insert_eq. f_equal. simpl.
    destruct Hnan as [-> | ->];
      by rewrite ?mul_nan_l, ?mul_nan_r, sub_nan_r.
  - split; [by apply trapez_integrate_spec|].
    rewrite lookup_insert_ne by done. rewrite lookup_insert_eq. f_equal.
    simpl. destruct Hnan as [-> | [-> | ->]];
      by rewrite ?add_nan_l, ?add_nan_r, ?div_nan_l, ?mul_nan_l, ?mul_nan_r,
           sub_nan_r.
Qed.

Lemma nan_operand_poisons_accumulator_witness :
  4096 ≠ 4104
  ∧ two_cells 4096 4104 1.5%float nan !! 4096 = Some 1.5%float
  ∧ two_cells 4096 4104 1.5%float nan !! 4104 = Some nan
  ∧ (3%float = nan ∨ nan = nan)
  ∧ (3%float = nan ∨ nan = nan ∨ 0.5%float = nan)
  ∧ (∃ mE, Euler.__integrate 4096 3%float nan 4104
             (two_cells 4096 4104 1.5%float nan) = inr (tt, mE)
           ∧ mE !! 4096 = Some nan)
  ∧ (∃ mT, Trapez.__integrate 4096 3%float 0.5%float 4104
             (two_cells 4096 4104 1.5%float nan) = inr (tt, mT)
           ∧ mT !! 4096 = Some nan).
Proof.
  assert (Hne : (4096 : Z) ≠ 4104) by discriminate.
  split; [exact Hne|]. split; [reflexivity|]. split; [reflexivity|].
  split; [right; reflexivity|]. split; [right; left; reflexivity|].
  split.
  - exact (proj1 (nan_operand_poisons_accumulator
                    (two_cells 4096 4104 1.5%float nan) 4096 4104
                    1.5%float nan 3%float nan Hne eq_refl eq_refl)
             (or_intror eq_refl)).
  - exact (proj2 (nan_operand_poisons_accumulator
                    (two_cells 4096 4104 1.5%float nan) 4096 4104
                    1.5%float nan 3%float 0.5%float Hne eq_refl eq_refl)
             (or_intror (or_introl eq_refl))).
Defined.

(** ** Signs in binary64 *)

(** Rounding does not depend on the sign: negation commutes with the
    product, and subtracting a negated value is adding the value. *)
Lemma SFopp_binary_round_aux s m e l :
  SFopp (binary_round_aux prec emax s m e l)
  = binary_round_aux prec emax (negb s) m e l.
Proof.
  unfold binary_round_aux.
  destruct (shr_fexp prec emax m e l) as [mrs' e'].
  destruct (shr_fexp prec emax _ e' loc_Exact) as [mrs'' e''].
  destruct (shr_m mrs''); [done| |done]. by destruct (e'' <=? emax - prec).
Qed.

Lemma mul_opp_swap (y dx : float) : (- y * dx)%float = (y * - dx)%float.
Proof.
  apply Prim2SF_inj. rewrite !mul_spec, !opp_spec. unfold SF64mul.
  destruct (Prim2SF y) as [[]|[]| |[] ? ?],
           (Prim2SF dx) as [[]|[]| |[] ? ?]; reflexivity.
Qed.

Lemma mul_opp_l (y dx : float) : (- y * dx)%float = (- (y * dx))%float.
Proof.
  apply Prim2SF_inj. rewrite opp_spec, !mul_spec, opp_spec. unfold SF64mul.
  destruct (Prim2SF y) as [sy|sy| |sy my ey],
           (Prim2SF dx) as [sd|sd| |sd md ed];
    simpl; try reflexivity; try (by destruct sy, sd).
  rewrite SFopp_binary_round_aux. by destruct sy, sd.
Qed.

Lemma sub_opp_r (a p : float) : (a - - p)%float = (a + p)%float.
Proof.
  apply Prim2SF_inj. rewrite sub_spec, add_spec, opp_spec.
  unfold SF64sub, SF64add.
  destruct (Prim2SF a) as [sa|sa| |sa ma ea],
           (Prim2SF p) as [sp|sp| |sp mp ep];
    simpl; try reflexivity; try (by destruct sa, sp);
    try (by rewrite negb_involutive).
Qed.

(** X8.  In binary64, an Euler call with the negated sample and an Euler
    call with the negated step size leave the same store, and the
    accumulator is exactly [a + y * dx]: no rounding separates subtracting
    the negated product from adding the product. *)
Theorem euler_negated_sample_or_step (m : gmap loc float) (i y_old : loc)
    (a y dx : float) :
  m !! i = Some a →
  ∃ m', Euler.__integrate i (- y)%float dx y_old m = inr (tt, m')
        ∧ Euler.__integrate i y (- dx)%float y_old m = inr (tt, m')
        ∧ m' !! i = Some (a + y * dx)%float.
Proof.
  intros Hi. eexists. split; [by apply euler_integrate_spec|]. split.
  - rewrite (euler_integrate_spec _ _ _ _ _ _ Hi). simpl.
    by rewrite mul_opp_swap.
  - rewrite lookup_insert_eq. simpl. by rewrite mul_opp_l, sub_opp_r.
Qed.

Lemma euler_negated_sample_or_step_witness :
  two_cells 4096 4104 1.5%float 0.25%float !! 4096 = Some 1.5%float
  ∧ ∃ m', Euler.__integrate 4096 (- 0.1)%float 3%float 4104
            (two_cells 4096 4104 1.5%float 0.25%float) = inr (tt, m')
          ∧ Euler.__integrate 4096 0.1%float (- 3)%float 4104
              (two_cells 4096 4104 1.5%float 0.25%float) = inr (tt, m')
          ∧ m' !! 4096 = Some (1.5 + 0.1 * 3)%float.
Proof.
  split; [reflexivity|].
  exact (euler_negated_sample_or_step
           (two_cells 4096 4104 1.5%float 0.25%float) 4096 4104
           1.5%float 0.1%float 3%float eq_refl).
Defined.

(** ** Uniform steps over the reals *)

Lemma trapez_acc_uniform (d : R) (ys : list R) : ∀ a b : R,
  (trapez_acc (a, b) (map (λ y, (y, d)) ys)).1
  = (euler_acc a (map (λ y, (y, d)) ys)
     + d / 2 * (default b (last ys) - b))%R.
Proof.
  induction ys as [|y ys IH]; intros a b.
  - simpl. lra.
  - simpl map. rewrite trapez_acc_cons, euler_acc_cons, IH.
    rewrite default_last_cons, !euler_acc_area. simpl. lra.
Qed.

(** X9.  In exact real arithmetic, over steps of one size [d] the
    trapezoidal run and the Euler run on the same samples differ by half a
    step times the change of the signal: the trapezoidal accumulator is the
    Euler accumulator plus [d / 2 * (last sample - initial previous
    sample)]. *)
Theorem trapez_run_uniform_steps (m : gmap loc R) (i y_old : loc)
    (a0 b d : R) (ys : list R) :
  i ≠ y_old →
  m !! i = Some a0 →
  m !! y_old = Some b →
  ∃ mT mE accT accE,
    run Trapez.__integrate i y_old (map (λ y, (y, d)) ys) m = inr (tt, mT)
    ∧ run Euler.__integrate i y_old (map (λ y, (y, d)) ys) m = inr (tt, mE)
    ∧ mT !! i = Some accT
    ∧ mE !! i = Some accE
    ∧ accT = (accE + d / 2 * (default b (last ys) - b))%R.
Proof.
  intros Hne Hi Ho. do 4 eexists.
  split; [by apply run_trapez|]. split; [by apply run_euler|].
  split; [rewrite lookup_insert_ne by done; apply lookup_insert_eq|].
  split; [apply lookup_insert_eq|].
  apply trapez_acc_uniform.
Qed.

Lemma trapez_run_uniform_steps_witness :
  4096 ≠ 4104
  ∧ two_cells 4096 4104 0%R 1%R !! 4096 = Some 0%R
  ∧ two_cells 4096 4104 0%R 1%R !! 4104 = Some 1%R
  ∧ ∃ mT mE accT accE,
      run Trapez.__integrate 4096 4104 (map (λ y, (y, 2%R)) [3%R; 5%R])
        (two_cells 4096 4104 0%R 1%R) = inr (tt, mT)
      ∧ run Euler.__integrate 4096 4104 (map (λ y, (y, 2%R)) [3%R; 5%R])
          (two_cells 4096 4104 0%R 1%R) = inr (tt, mE)
      ∧ mT !! 4096 = Some accT
      ∧ mE !! 4096 = Some accE
      ∧ accT = (accE + 2 / 2 * (default 1 (last [3; 5]) - 1))%R.
Proof.
  assert (Hne : (4096 : Z) ≠ 4104) by discriminate.
  split; [exact Hne|]. split; [reflexivity|]. split; [reflexivity|].
  exact (trapez_run_uniform_steps (two_cells 4096 4104 0%R 1%R) 4096 4104
           0%R 1%R 2%R [3%R; 5%R] Hne eq_refl eq_refl).
Defined.
